(** * Agor: streaming chunker and permission coordination

    A shallow embedding of two pieces of the Agor code base:

    - [ClaudeTool.chunkTextForStreaming], the function that cuts the text of
      an assistant message into fragments for live display;
    - the permission flow: [PermissionService] (waitForDecision,
      resolvePermission), the [PreToolUse] hook of [ClaudePromptService] and
      the [/sessions/:id/permission-decision] endpoint of the daemon.

    JavaScript strings are sequences of UTF-16 code units; they are modelled
    as lists of code units ([N]). *)

From Stdlib Require Import NArith Lia.
From stdpp Require Import gmap strings list fin_maps.

(** ** JavaScript strings *)

Module JS.

Abbreviation jsstring := (list N).

(** Code units of a Rocq string literal (one code unit per byte), to write
    concrete texts. *)
Fixpoint js (s : string) : jsstring :=
  match s with
  | EmptyString => []
  | String c s' => Ascii.N_of_ascii c :: js s'
  end.

(** The class [\s] of ECMAScript regular expressions, which is also the set
    of code units removed by [String.prototype.trim] and [trimEnd]:
    WhiteSpace (TAB, VT, FF, SP, NBSP, ZWNBSP and the Unicode space
    separators) and LineTerminator (LF, CR, LS, PS). *)
Definition is_space (c : N) : bool :=
  (((9 <=? c) && (c <=? 13)) || (c =? 32) || (c =? 160) || (c =? 5760)
   || ((8192 <=? c) && (c <=? 8202)) || (c =? 8232) || (c =? 8233)
   || (c =? 8239) || (c =? 8287) || (c =? 12288) || (c =? 65279))%N.

(** [s.split(re)] for [re = /\s+/] ([keep = false]) and [re = /(\s+)/]
    ([keep = true]: the capture group puts each separator in the result).
    [cur] is the piece being read and [in_ws] tells whether it is a
    separator.  A text that ends with a separator yields a last, empty
    piece, as in JavaScript. *)
Fixpoint split_go (keep : bool) (s cur : jsstring) (in_ws : bool)
  : list jsstring :=
  match s with
  | [] => if in_ws then (if keep then [cur; []] else [[]]) else [cur]
  | c :: s' =>
      if is_space c then
        if in_ws then split_go keep s' (cur ++ [c]) true
        else cur :: split_go keep s' [c] true
      else
        if in_ws then
          (if keep then [cur] else []) ++ split_go keep s' [c] false
        else split_go keep s' (cur ++ [c]) false
  end.

(** [text.split(/(\s+)/)] *)
Definition split_keep_ws (text : jsstring) : list jsstring :=
  split_go true text [] false.

(** [text.split(/\s+/)] *)
Definition split_ws (text : jsstring) : list jsstring :=
  split_go false text [] false.

(** [s.trimStart()] *)
Fixpoint trimStart (s : jsstring) : jsstring :=
  match s with
  | [] => []
  | c :: s' => if is_space c then trimStart s' else s
  end.

(** [s.trimEnd()] *)
Fixpoint trimEnd (s : jsstring) : jsstring :=
  match s with
  | [] => []
  | c :: s' =>
      match trimEnd s' with
      | [] => if is_space c then [] else [c]
      | t => c :: t
      end
  end.

(** [s.trim()] *)
Definition trim (s : jsstring) : jsstring := trimEnd (trimStart s).

(** Truthiness of a string: the empty string is the only falsy one. *)
Definition truthy (s : jsstring) : bool :=
  match s with [] => false | _ => true end.

End JS.

(** ** The chunker *)

Module Chunker.
Import JS.

(** The character class [[.!?\n\n]]: a class is a set, so the repeated
    [\n] adds nothing. *)
Definition boundary_class (c : N) : bool :=
  ((c =? 46) || (c =? 33) || (c =? 63) || (c =? 10))%N.

(** [/[.!?\n\n]\s*$/.test(s)]: some position holds a character of the class
    and only [\s] characters follow it up to the end of the input. *)
Fixpoint boundary_regex_test (s : jsstring) : bool :=
  match s with
  | [] => false
  | c :: s' =>
      (boundary_class c && forallb is_space s') || boundary_regex_test s'
  end.

(** [buffer.split(/\s+/).filter(w => w.length > 0).length] *)
Definition wordCount (buffer : jsstring) : nat :=
  length (filter (fun w : jsstring => 0 < length w) (split_ws buffer)).

(** [/[.!?\n\n]\s*$/.test(buffer.trimEnd())] *)
Definition hasSentenceBoundary (buffer : jsstring) : bool :=
  boundary_regex_test (trimEnd buffer).

(** The condition of the [if] in the loop body. *)
Definition shouldFlush (buffer : jsstring) : bool :=
  (hasSentenceBoundary buffer && bool_decide (3 <= wordCount buffer))
  || bool_decide (10 <= wordCount buffer).

(** One iteration of [for (const word of words)]; the state is
    [(chunks, buffer)]. *)
Definition step (st : list jsstring * jsstring) (word : jsstring)
  : list jsstring * jsstring :=
  let buffer := st.2 ++ word in
  if shouldFlush buffer then (st.1 ++ [buffer], []) else (st.1, buffer).

(** The loop over a list of pieces, from a given state. *)
Definition run (words : list jsstring) (st : list jsstring * jsstring)
  : list jsstring * jsstring :=
  fold_left step words st.

(** State at the end of the loop of [chunkTextForStreaming]. *)
Definition chunk_loop (text : jsstring) : list jsstring * jsstring :=
  run (split_keep_ws text) ([], []).

(** [chunkTextForStreaming(text)] *)
Definition chunkTextForStreaming (text : jsstring) : list jsstring :=
  let '(chunks, buffer) := chunk_loop text in
  if truthy (trim buffer) then chunks ++ [buffer] else chunks.

(** The remainder that the final [if (buffer.trim())] leaves out. *)
Definition dropped_remainder (text : jsstring) : jsstring :=
  let '(_, buffer) := chunk_loop text in
  if truthy (trim buffer) then [] else buffer.

(** Vocabulary of the statements. *)

(** The text ends with a [\s] character. *)
Definition ends_with_space (s : jsstring) : bool :=
  match last s with Some c => is_space c | None => false end.

(** The string holds a character that is not [\s]. *)
Definition has_word (s : jsstring) : bool :=
  existsb (fun c => negb (is_space c)) s.

(** [.], [!] or [?] *)
Definition is_punct (c : N) : bool := ((c =? 46) || (c =? 33) || (c =? 63))%N.

(** The string ends with [.], [!] or [?]. *)
Definition ends_with_punct (s : jsstring) : bool :=
  match last s with Some c => is_punct c | None => false end.

(** Two line feeds in a row. *)
Fixpoint has_blank_line (s : jsstring) : bool :=
  match s with
  | [] => false
  | c :: s' =>
      match s' with
      | c' :: _ => ((c =? 10) && (c' =? 10))%N || has_blank_line s'
      | [] => false
      end
  end.

(** The whitespace at the end of the buffer holds a blank line. *)
Definition ends_with_blank_line (buffer : jsstring) : bool :=
  has_blank_line (drop (length (trimEnd buffer)) buffer).

(** A sentence terminator ends the buffer, whitespace after it apart. *)
Definition sentence_end (buffer : jsstring) : bool :=
  ends_with_punct (trimEnd buffer) || ends_with_blank_line buffer.

(** The flush rule: a sentence end with three words, or ten words. *)
Definition flush_rule (buffer : jsstring) : Prop :=
  (sentence_end buffer = true /\ 3 <= wordCount buffer)
  \/ 10 <= wordCount buffer.

End Chunker.

(** ** The permission flow *)

Module Permission.

(** A call either returns a value or throws. *)
Inductive Outcome (A : Type) : Type :=
| Return (a : A)
| Throw (message : string).
Arguments Return {A} a.
Arguments Throw {A} message.

(** ['once' | 'session' | 'project'] *)
Inductive Scope : Set := once | session | project.

(** [TaskStatus] *)
Inductive TaskStatus : Set :=
| created | running | awaiting_permission | completed | failed.

(** [Record<string, unknown>], kept as a list of fields. *)
Definition ToolInput : Set := list (string * string).

(** [PermissionDecision], as typed by [permission-service.ts].  The
    decisions made up by [waitForDecision] carry neither [taskId] nor
    [decidedBy]. *)
Record PermissionDecision : Set := {
  requestId : string;
  taskId : option string;
  allow : bool;
  reason : option string;
  remember : bool;
  scope : Scope;
  decidedBy : option string
}.

(** The body of a POST to the decision endpoint, before validation: every
    field may be missing, and [body_allow] is [Some] only for a value whose
    [typeof] is ['boolean']. *)
Record DecisionPayload : Set := {
  body_requestId : option string;
  body_taskId : option string;
  body_allow : option bool;
  body_reason : option string;
  body_remember : bool;
  body_scope : Scope;
  body_decidedBy : option string
}.

(** [Task.permission_request] *)
Record TaskPermissionRequest : Set := {
  request_id : string;
  tool_name : string;
  tool_input : ToolInput;
  tool_use_id : option string;
  requested_at : string;
  approved_by : option string;
  approved_at : option string
}.

(** The fields of [Task] that the permission flow reads and writes. *)
Record Task : Set := {
  status : TaskStatus;
  permission_request : option TaskPermissionRequest
}.

(** The fields of a session that the hook reads:
    [session.repo.cwd] and [session.data?.permission_config?.allowedTools]. *)
Record Session : Set := {
  repo_cwd : string;
  allowedTools : option (list string)
}.

(** [PreToolUseHookInput] *)
Record PreToolUseHookInput : Set := {
  input_tool_name : string;
  input_tool_input : ToolInput
}.

(** [PermissionRequest], the payload of the [permission:request] event. *)
Record PermissionRequest : Set := {
  ev_requestId : string;
  ev_sessionId : string;
  ev_taskId : string;
  ev_toolName : string;
  ev_toolInput : ToolInput;
  ev_toolUseID : option string;
  ev_timestamp : string
}.

(** An entry of [pendingRequests]: the [resolve] function of a promise
    (named by the promise) and a timer handle. *)
Record PendingRequest : Set := {
  resolve : nat;
  timeout : nat
}.

Inductive PermissionBehavior : Set := Allow | Deny.

(** [hookSpecificOutput] of a [PreToolUse] hook. *)
Record HookJSONOutput : Set := {
  permissionDecision : PermissionBehavior;
  permissionDecisionReason : option string
}.

(** The closure registered by [waitForDecision] as abort listener and as
    timer callback captures [requestId] and [resolve]. *)
Definition Closure : Set := (string * nat)%type.

(** The state of the daemon: the stores, the [PermissionService] instance
    and the JavaScript runtime objects its closures live in.
    - [promises]: the promises created by [waitForDecision], by number;
      [None] is a pending promise, [Some d] one fulfilled with [d];
    - [timers]: the armed timers ([setTimeout] adds, firing and
      [clearTimeout] remove);
    - [listeners]: the ['abort'] listeners, with their signal, in the order
      of registration; [aborted]: the signals that have fired;
    - [emitted]: the events passed to [emitEvent];
    - [settings_files]: the files [{cwd}/.claude/settings.json] by [cwd];
      [None] is a file without a [permissions] key, [Some tools] one with
      [permissions.allow.tools = tools]. *)
Record State : Type := {
  tasks : gmap string Task;
  sessions : gmap string Session;
  settings_files : gmap string (option (list string));
  pendingRequests : gmap string PendingRequest;
  promises : list (option PermissionDecision);
  timers : gmap nat Closure;
  next_timer : nat;
  listeners : list (nat * Closure);
  aborted : gset nat;
  emitted : list (string * PermissionRequest)
}.

Definition set_tasks (f : gmap string Task -> gmap string Task)
  (st : State) : State :=
  {| tasks := f (tasks st); sessions := sessions st;
     settings_files := settings_files st;
     pendingRequests := pendingRequests st; promises := promises st;
     timers := timers st; next_timer := next_timer st;
     listeners := listeners st; aborted := aborted st;
     emitted := emitted st |}.

Definition set_sessions (f : gmap string Session -> gmap string Session)
  (st : State) : State :=
  {| tasks := tasks st; sessions := f (sessions st);
     settings_files := settings_files st;
     pendingRequests := pendingRequests st; promises := promises st;
     timers := timers st; next_timer := next_timer st;
     listeners := listeners st; aborted := aborted st;
     emitted := emitted st |}.

Definition set_settings_files
  (f : gmap string (option (list string))
       -> gmap string (option (list string)))
  (st : State) : State :=
  {| tasks := tasks st; sessions := sessions st;
     settings_files := f (settings_files st);
     pendingRequests := pendingRequests st; promises := promises st;
     timers := timers st; next_timer := next_timer st;
     listeners := listeners st; aborted := aborted st;
     emitted := emitted st |}.

Definition set_pendingRequests
  (f : gmap string PendingRequest -> gmap string PendingRequest)
  (st : State) : State :=
  {| tasks := tasks st; sessions := sessions st;
     settings_files := settings_files st;
     pendingRequests := f (pendingRequests st); promises := promises st;
     timers := timers st; next_timer := next_timer st;
     listeners := listeners st; aborted := aborted st;
     emitted := emitted st |}.

Definition set_promises
  (f : list (option PermissionDecision) -> list (option PermissionDecision))
  (st : State) : State :=
  {| tasks := tasks st; sessions := sessions st;
     settings_files := settings_files st;
     pendingRequests := pendingRequests st; promises := f (promises st);
     timers := timers st; next_timer := next_timer st;
     listeners := listeners st; aborted := aborted st;
     emitted := emitted st |}.

Definition set_timers (f : gmap nat Closure -> gmap nat Closure)
  (n : nat) (st : State) : State :=
  {| tasks := tasks st; sessions := sessions st;
     settings_files := settings_files st;
     pendingRequests := pendingRequests st; promises := promises st;
     timers := f (timers st); next_timer := n;
     listeners := listeners st; aborted := aborted st;
     emitted := emitted st |}.

Definition set_listeners (f : list (nat * Closure) -> list (nat * Closure))
  (st : State) : State :=
  {| tasks := tasks st; sessions := sessions st;
     settings_files := settings_files st;
     pendingRequests := pendingRequests st; promises := promises st;
     timers := timers st; next_timer := next_timer st;
     listeners := f (listeners st); aborted := aborted st;
     emitted := emitted st |}.

Definition set_aborted (f : gset nat -> gset nat) (st : State) : State :=
  {| tasks := tasks st; sessions := sessions st;
     settings_files := settings_files st;
     pendingRequests := pendingRequests st; promises := promises st;
     timers := timers st; next_timer := next_timer st;
     listeners := listeners st; aborted := f (aborted st);
     emitted := emitted st |}.

Definition set_emitted
  (f : list (string * PermissionRequest) -> list (string * PermissionRequest))
  (st : State) : State :=
  {| tasks := tasks st; sessions := sessions st;
     settings_files := settings_files st;
     pendingRequests := pendingRequests st; promises := promises st;
     timers := timers st; next_timer := next_timer st;
     listeners := listeners st; aborted := aborted st;
     emitted := f (emitted st) |}.

(** *** The JavaScript runtime *)

(** Calling the [resolve] function of a promise: it fulfils a pending
    promise and does nothing on a settled one. *)
Definition resolve_promise (p : nat) (d : PermissionDecision) (st : State)
  : State :=
  match promises st !! p with
  | Some None => set_promises (fun ps => <[p := Some d]> ps) st
  | _ => st
  end.

(** *** PermissionService *)

(** The decision made up by the abort listener. *)
Definition cancelled (rid : string) : PermissionDecision :=
  {| requestId := rid; taskId := None; allow := false;
     reason := Some "Cancelled"; remember := false; scope := once;
     decidedBy := None |}.

(** The decision made up by the timer callback. *)
Definition timed_out (rid : string) : PermissionDecision :=
  {| requestId := rid; taskId := None; allow := false;
     reason := Some "Timeout"; remember := false; scope := once;
     decidedBy := None |}.

(** [emitRequest(sessionId, request)] *)
Definition emitRequest (fullRequest : PermissionRequest) (st : State)
  : State :=
  set_emitted (fun evs => evs ++ [("permission:request", fullRequest)]) st.

(** [waitForDecision(requestId, signal)]: the executor of the new promise
    registers the abort listener, arms the timer and records the pending
    request; the promise is returned. *)
Definition waitForDecision (rid : string) (signal : nat) (st : State)
  : State * nat :=
  let p := length (promises st) in
  let t := next_timer st in
  let st1 := set_promises (fun ps => ps ++ [None]) st in
  let st2 := set_listeners (fun ls => ls ++ [(signal, (rid, p))]) st1 in
  let st3 := set_timers (fun ts => <[t := (rid, p)]> ts) (S t) st2 in
  (set_pendingRequests
     (fun m => <[rid := {| resolve := p; timeout := t |}]> m) st3, p).

(** The body of the abort listener. *)
Definition on_abort (c : Closure) (st : State) : State :=
  resolve_promise c.2 (cancelled c.1)
    (set_pendingRequests (fun m => delete c.1 m) st).

(** The signal fires: its listeners run in the order of registration.  A
    signal fires once. *)
Definition abort (signal : nat) (st : State) : State :=
  if decide (signal ∈ aborted st) then st
  else
    fold_left
      (fun s (l : nat * Closure) =>
         if decide (l.1 = signal) then on_abort l.2 s else s)
      (listeners st)
      (set_aborted (fun a => {[signal]} ∪ a) st).

(** The timer [t] fires, if it is armed: the body of the timer callback. *)
Definition timer_fire (t : nat) (st : State) : State :=
  match timers st !! t with
  | Some c =>
      resolve_promise c.2 (timed_out c.1)
        (set_pendingRequests (fun m => delete c.1 m)
           (set_timers (fun ts => delete t ts) (next_timer st) st))
  | None => st
  end.

(** [resolvePermission(decision)] *)
Definition resolvePermission (decision : PermissionDecision) (st : State)
  : State :=
  match pendingRequests st !! requestId decision with
  | Some pending =>
      let st1 :=
        set_timers (fun ts => delete (timeout pending) ts) (next_timer st) st
      in
      let st2 := resolve_promise (resolve pending) decision st1 in
      set_pendingRequests (fun m => delete (requestId decision) m) st2
  | None => st
  end.

(** *** The stores *)

(** Modelled from the spec: the task store behind [tasksRepo.update] and
    [tasksService.patch] is not part of the sources.  A patch rewrites the
    fields it names on the stored task and does nothing for an unknown id;
    the dotted keys ['permission_request.approved_by'] and
    ['permission_request.approved_at'] name fields of the embedded request
    and find nothing to write to when the task has none. *)
Definition tasks_update (id : string) (patch : Task -> Task) (st : State)
  : State :=
  set_tasks (fun m => alter patch id m) st.

(** The patch [{ status: 'awaiting_permission', permission_request }]. *)
Definition suspend_patch (r : TaskPermissionRequest) (task : Task) : Task :=
  {| status := awaiting_permission; permission_request := Some r |}.

Definition set_approval (by_ : option string) (at_ : string)
  (r : TaskPermissionRequest) : TaskPermissionRequest :=
  {| request_id := request_id r; tool_name := tool_name r;
     tool_input := tool_input r; tool_use_id := tool_use_id r;
     requested_at := requested_at r;
     approved_by := by_; approved_at := Some at_ |}.

(** The patch [{ status: allow ? 'running' : 'failed',
    'permission_request.approved_by', 'permission_request.approved_at' }]. *)
Definition approval_patch (a : bool) (by_ : option string) (at_ : string)
  (task : Task) : Task :=
  {| status := if a then running else failed;
     permission_request := set_approval by_ at_ <$> permission_request task |}.

(** Modelled from the spec: [sessionsRepo.update] with the key
    ['data.permission_config.allowedTools'] replaces the allow-list of the
    stored session. *)
Definition sessions_update (id : string) (tools : list string) (st : State)
  : State :=
  set_sessions
    (fun m =>
       alter (fun s => {| repo_cwd := repo_cwd s;
                          allowedTools := Some tools |}) id m) st.

(** [[...new Set(l)]]: the elements of [l] in the order of their first
    occurrence. *)
Fixpoint set_spread (seen l : list string) : list string :=
  match l with
  | [] => []
  | x :: l' =>
      if decide (x ∈ seen) then set_spread seen l'
      else x :: set_spread (x :: seen) l'
  end.

(** [updateProjectSettings(cwd, { allowTools })]: reading a file that does
    not exist throws. *)
Definition updateProjectSettings (cwd : string) (allowTools : list string)
  (st : State) : State * Outcome unit :=
  match settings_files st !! cwd with
  | None => (st, Throw "ENOENT: no such file or directory")
  | Some settings =>
      let tools := default [] settings in
      (set_settings_files
         (fun m => <[cwd := Some (set_spread [] (tools ++ allowTools))]> m)
         st,
       Return ())
  end.

(** *** The PreToolUse hook *)

(** What a hook suspended at [await waitForDecision(...)] holds on to: its
    parameters, the session read at the start and the promise awaited. *)
Record Frame : Set := {
  frame_sessionId : string;
  frame_taskId : string;
  frame_session : Session;
  frame_input : PreToolUseHookInput;
  frame_promise : nat
}.

(** [allowedTools?.includes(name)] *)
Definition includes (tools : option (list string)) (name : string) : bool :=
  match tools with
  | Some l => bool_decide (name ∈ l)
  | None => false
  end.

(** The hook made by [createPreToolUseHook(sessionId, taskId)], run up to
    its [await this.permissionService.waitForDecision(...)].  [requestId]
    is the value of [generateId()]; [now] and [now'] are the two readings
    of the clock.  The result is the output of the hook when it returns at
    once, or the frame of the suspended call.  Dereferencing a session
    that is not there throws. *)
Definition createPreToolUseHook (sessionId taskId : string)
  (input : PreToolUseHookInput) (toolUseID : option string) (signal : nat)
  (requestId : string) (now now' : string) (st : State)
  : State * Outcome (HookJSONOutput + Frame) :=
  match sessions st !! sessionId with
  | None => (st, Throw "session is not defined")
  | Some found =>
      if includes (allowedTools found) (input_tool_name input) then
        (st, Return (inl {| permissionDecision := Allow;
                            permissionDecisionReason :=
                              Some "Allowed by session config" |}))
      else
        let st1 :=
          tasks_update taskId
            (suspend_patch
               {| request_id := requestId;
                  tool_name := input_tool_name input;
                  tool_input := input_tool_input input;
                  tool_use_id := toolUseID;
                  requested_at := now;
                  approved_by := None; approved_at := None |}) st in
        let st2 :=
          emitRequest
            {| ev_requestId := requestId; ev_sessionId := sessionId;
               ev_taskId := taskId; ev_toolName := input_tool_name input;
               ev_toolInput := input_tool_input input;
               ev_toolUseID := toolUseID; ev_timestamp := now' |} st1 in
        let '(st3, p) := waitForDecision requestId signal st2 in
        (st3, Return (inr {| frame_sessionId := sessionId;
                             frame_taskId := taskId;
                             frame_session := found;
                             frame_input := input;
                             frame_promise := p |}))
  end.

(** The output built from a decision. *)
Definition hook_output (decision : PermissionDecision) : HookJSONOutput :=
  {| permissionDecision := if allow decision then Allow else Deny;
     permissionDecisionReason := reason decision |}.

(** The rest of the hook, run when the awaited promise is fulfilled with
    [decision]. *)
Definition resume_with (f : Frame) (decision : PermissionDecision)
  (now : string) (st : State) : State * Outcome HookJSONOutput :=
  let st1 :=
    tasks_update (frame_taskId f)
      (approval_patch (allow decision) (decidedBy decision) now) st in
  if remember decision then
    match scope decision with
    | session =>
        (sessions_update (frame_sessionId f)
           (default [] (allowedTools (frame_session f))
            ++ [input_tool_name (frame_input f)]) st1,
         Return (hook_output decision))
    | project =>
        match updateProjectSettings (repo_cwd (frame_session f))
                [input_tool_name (frame_input f)] st1 with
        | (st2, Return _) => (st2, Return (hook_output decision))
        | (st2, Throw e) => (st2, Throw e)
        end
    | once => (st1, Return (hook_output decision))
    end
  else (st1, Return (hook_output decision)).

(** The continuation of a suspended hook; [None] while its promise is
    pending. *)
Definition createPreToolUseHook_resume (f : Frame) (now : string)
  (st : State) : option (State * Outcome HookJSONOutput) :=
  match promises st !! frame_promise f with
  | Some (Some decision) => Some (resume_with f decision now st)
  | _ => None
  end.

(** *** The decision endpoint *)

(** A string that passes [if (!x) throw ...]: present and not empty. *)
Definition truthy_string (o : option string) : option string :=
  match o with
  | Some s => if decide (s = "") then None else Some s
  | None => None
  end.

(** [create(data, params)] of [/sessions/:id/permission-decision];
    [route_id] is [params.route?.id]. *)
Definition permission_decision_create (data : DecisionPayload)
  (route_id : option string) (now : string) (st : State)
  : State * Outcome bool :=
  match truthy_string route_id with
  | None => (st, Throw "Session ID required")
  | Some _ =>
  match truthy_string (body_requestId data) with
  | None => (st, Throw "requestId required")
  | Some rid =>
  match truthy_string (body_taskId data) with
  | None => (st, Throw "taskId required")
  | Some tid =>
  match truthy_string (body_decidedBy data) with
  | None => (st, Throw "decidedBy required")
  | Some user =>
  match body_allow data with
  | None => (st, Throw "allow field required")
  | Some a =>
      let st1 := tasks_update tid (approval_patch a (Some user) now) st in
      let st2 :=
        resolvePermission
          {| requestId := rid; taskId := Some tid; allow := a;
             reason := body_reason data; remember := body_remember data;
             scope := body_scope data; decidedBy := Some user |} st1 in
      (st2, Return true)
  end end end end end.

(** *** Runs *)

(** What can happen to the daemon, one event at a time: a call of the hook,
    the continuation of a suspended call once its promise is fulfilled (any
    frame is let through, the frames of calls that were made among them), a
    signal, a timer, a POST to the endpoint, and the methods of the
    service called on their own. *)
Inductive step : State -> State -> Prop :=
| step_hook sessionId taskId input toolUseID signal requestId now now' st
    st' out :
    createPreToolUseHook sessionId taskId input toolUseID signal requestId
      now now' st = (st', out) ->
    step st st'
| step_resume f now st st' out :
    createPreToolUseHook_resume f now st = Some (st', out) ->
    step st st'
| step_abort signal st : step st (abort signal st)
| step_timer t st : step st (timer_fire t st)
| step_decision data route_id now st st' out :
    permission_decision_create data route_id now st = (st', out) ->
    step st st'
| step_resolve decision st : step st (resolvePermission decision st)
| step_wait rid signal st : step st (waitForDecision rid signal st).1.

(** A run: any number of events. *)
Definition steps : State -> State -> Prop := rtc step.

End Permission.

(** ** Vocabulary of the statements about the permission flow *)

Module PermissionProps.
Import Permission.

(** The promise [p] is fulfilled with [d]. *)
Definition settled (st : State) (p : nat) (d : PermissionDecision) : Prop :=
  promises st !! p = Some (Some d).

(** The promise [p] exists and is pending. *)
Definition pending (st : State) (p : nat) : Prop :=
  promises st !! p = Some None.

(** [status] of the stored task [id]. *)
Definition status_of (st : State) (id : string) : option TaskStatus :=
  status <$> tasks st !! id.

(** [permission_request] of the stored task [id]. *)
Definition request_of (st : State) (id : string)
  : option TaskPermissionRequest :=
  tasks st !! id ≫= permission_request.

(** The call [waitForDecision(rid, signal)] that returned the promise [p]
    and armed the timer [t] is still registered: the promise is pending, the
    request is recorded with it and the timer is armed. *)
Definition registered (st : State) (rid : string) (p t : nat) : Prop :=
  pending st p
  /\ pendingRequests st !! rid = Some {| resolve := p; timeout := t |}
  /\ timers st !! t = Some (rid, p).

(** The call still listens to its signal: the signal has not fired and the
    listener of the call is the one that holds [p]. *)
Definition listening (st : State) (rid : string) (signal p : nat) : Prop :=
  (signal ∉ aborted st)
  /\ ((signal, (rid, p)) ∈ listeners st)
  /\ (forall s r, (s, (r, p)) ∈ listeners st -> r = rid).

(** Listeners hold promises that exist. *)
Definition listeners_allocated (st : State) : Prop :=
  forall s r p, (s, (r, p)) ∈ listeners st -> p < length (promises st).

(** The three stores, side by side. *)
Definition stores (st : State) :=
  (tasks st, sessions st, settings_files st).

(** No approval is recorded on the request. *)
Definition unresolved (r : TaskPermissionRequest) : Prop :=
  approved_by r = None /\ approved_at r = None.

(** [permission_request] is present and unresolved. *)
Definition has_unresolved_request (task : Task) : Prop :=
  exists r, permission_request task = Some r /\ unresolved r.

(** [status == awaiting_permission] exactly when [permission_request] is
    present and unresolved. *)
Definition task_invariant (task : Task) : Prop :=
  status task = awaiting_permission <-> has_unresolved_request task.

(** Every stored task satisfies it. *)
Definition invariant (st : State) : Prop :=
  forall id task, tasks st !! id = Some task -> task_invariant task.

(** What [listeners_allocated] looks at. *)
Definition shape (st : State) : list (nat * Closure) * nat :=
  (listeners st, length (promises st)).

(** The output of the hook for a tool of the session allow-list. *)
Definition allowed_by_session_config : HookJSONOutput :=
  {| permissionDecision := Allow;
     permissionDecisionReason := Some "Allowed by session config" |}.

End PermissionProps.

(** ** A concrete session, to evaluate the code on *)

Module Scenario.
Import Permission PermissionProps.

(** The agent wants to run [ls]. *)
Definition bash : PreToolUseHookInput :=
  {| input_tool_name := "Bash"; input_tool_input := [("command", "ls")] |}.

(** One session with no allow-list and one running task; nothing pending. *)
Definition idle : State :=
  {| tasks := {[ "t1" := {| status := running;
                            permission_request := None |} ]};
     sessions := {[ "s1" := {| repo_cwd := "/repo";
                               allowedTools := None |} ]};
     settings_files := ∅; pendingRequests := ∅; promises := [];
     timers := ∅; next_timer := 0; listeners := []; aborted := ∅;
     emitted := [] |}.

(** The hook is called for [Bash] in task [t1], with the fresh id [r1] and
    the signal [0], and suspends. *)
Definition asked : State :=
  (createPreToolUseHook "s1" "t1" bash None 0 "r1" "10:00:00" "10:00:00"
     idle).1.

(** The frame of that call. *)
Definition call : Frame :=
  {| frame_sessionId := "s1"; frame_taskId := "t1";
     frame_session := {| repo_cwd := "/repo"; allowedTools := None |};
     frame_input := bash; frame_promise := 0 |}.

(** A user allows request [rid] of task [t1], for the session. *)
Definition allow_for_session (rid : string) : DecisionPayload :=
  {| body_requestId := Some rid; body_taskId := Some "t1";
     body_allow := Some true; body_reason := None; body_remember := true;
     body_scope := session; body_decidedBy := Some "alice" |}.

(** Alice's decision for [r1] has reached the endpoint. *)
Definition remembered : State :=
  (permission_decision_create (allow_for_session "r1") (Some "s1")
     "10:00:20" asked).1.

(** The agent wants to write a file. *)
Definition write_file : PreToolUseHookInput :=
  {| input_tool_name := "Write";
     input_tool_input := [("file_path", "/repo/a.txt")] |}.

(** The state after the continuation of [f] has run in [st]. *)
Definition resumed (f : Frame) (now : string) (st : State) : State :=
  match createPreToolUseHook_resume f now st with
  | Some (st', _) => st'
  | None => st
  end.

(** Alice's decision has been delivered, the hook has returned, and the
    agent asks for [Write] in the same task, with the fresh id [r2]. *)
Definition asked_again : State :=
  (createPreToolUseHook "s1" "t1" write_file None 0 "r2" "10:03:00"
     "10:03:00" (resumed call "10:00:21" remembered)).1.

(** Bob allows request [rid] of task [t1], for the project. *)
Definition allow_for_project (rid : string) : DecisionPayload :=
  {| body_requestId := Some rid; body_taskId := Some "t1";
     body_allow := Some true; body_reason := None; body_remember := true;
     body_scope := project; body_decidedBy := Some "bob" |}.

(** The frame of a call for [Write], suspended on the second promise. *)
Definition call2 : Frame :=
  {| frame_sessionId := "s1"; frame_taskId := "t1";
     frame_session := {| repo_cwd := "/repo"; allowedTools := None |};
     frame_input := write_file; frame_promise := 1 |}.

End Scenario.

(** ** Facts about the string primitives *)

Module JSFacts.
Import JS.

Lemma concat_split_go (s cur : jsstring) (in_ws : bool) :
  concat (split_go true s cur in_ws) = cur ++ s.
Proof.
  revert cur in_ws.
  induction s as [|c s IH]; intros cur in_ws; simpl.
  - destruct in_ws; simpl; by rewrite ?app_nil_r.
  - destruct (is_space c), in_ws; simpl; rewrite IH;
      by rewrite <- ?app_assoc.
Qed.

(** The pieces of [text.split(/(\s+)/)], joined, are the text. *)
Lemma concat_split_keep_ws (text : jsstring) :
  concat (split_keep_ws text) = text.
Proof. unfold split_keep_ws. by rewrite concat_split_go. Qed.

Lemma trimStart_nil_iff (s : jsstring) :
  trimStart s = [] <-> forallb is_space s = true.
Proof.
  induction s as [|c s IH]; simpl; [done|].
  destruct (is_space c); simpl; [done|].
  split; intros H; discriminate H.
Qed.

Lemma trimEnd_nil_iff (s : jsstring) :
  trimEnd s = [] <-> forallb is_space s = true.
Proof.
  induction s as [|c s IH]; simpl; [done|].
  destruct (trimEnd s) as [|d t] eqn:E.
  - destruct (is_space c); simpl.
    + split; [intros _; by apply IH | done].
    + split; intros H; discriminate H.
  - split; [discriminate|].
    intros H. apply andb_true_iff in H as [_ H].
    apply IH in H. discriminate H.
Qed.

Lemma trimStart_forallb (s : jsstring) :
  forallb is_space (trimStart s) = forallb is_space s.
Proof.
  induction s as [|c s IH]; simpl; [done|].
  destruct (is_space c) eqn:E; simpl; [done | by rewrite E].
Qed.

(** [buffer.trim()] is falsy exactly when the buffer is all whitespace. *)
Lemma truthy_trim (s : jsstring) :
  truthy (trim s) = negb (forallb is_space s).
Proof.
  unfold trim.
  destruct (forallb is_space s) eqn:E; simpl.
  - rewrite <- trimStart_forallb in E. apply trimEnd_nil_iff in E.
    by rewrite E.
  - destruct (trimEnd (trimStart s)) eqn:E'; [|done].
    apply trimEnd_nil_iff in E'. rewrite trimStart_forallb in E'.
    congruence.
Qed.

(** What [trimEnd] returns does not end with whitespace. *)
Lemma trimEnd_last (s : jsstring) (c : N) :
  last (trimEnd s) = Some c -> is_space c = false.
Proof.
  induction s as [|d s IH]; simpl; [done|].
  destruct (trimEnd s) as [|e t] eqn:E.
  - destruct (is_space d) eqn:Ed; simpl; [done|].
    intros [= <-]. done.
  - intros H. apply IH. by rewrite last_cons_cons in H.
Qed.

Lemma forallb_space_last (s : jsstring) (c : N) :
  last s = Some c -> forallb is_space s = true -> is_space c = true.
Proof.
  induction s as [|d s IH]; simpl; [done|].
  intros Hl H. apply andb_true_iff in H as [Hd Hs].
  destruct s as [|e t]; [by injection Hl as <- |].
  rewrite last_cons_cons in Hl. by apply IH.
Qed.

End JSFacts.

(** ** Facts about the chunker *)

Module ChunkerFacts.
Import JS JSFacts Chunker.

Lemma space_not_punct (c : N) :
  is_space c = false -> boundary_class c = is_punct c.
Proof.
  intros H. unfold boundary_class, is_punct.
  destruct (N.eqb_spec c 10) as [->|_]; [discriminate H|].
  by rewrite orb_false_r.
Qed.

(** On a string that does not end with whitespace the regular expression
    can only match at the last character. *)
Lemma boundary_regex_last (s : jsstring) (c : N) :
  last s = Some c -> is_space c = false ->
  boundary_regex_test s = is_punct c.
Proof.
  intros Hl Hc. induction s as [|d s IH]; [done|].
  destruct s as [|e t].
  - injection Hl as ->. simpl.
    rewrite andb_true_r, orb_false_r. by apply space_not_punct.
  - rewrite last_cons_cons in Hl.
    change (boundary_regex_test (d :: e :: t))
      with ((boundary_class d && forallb is_space (e :: t))
            || boundary_regex_test (e :: t)).
    destruct (forallb is_space (e :: t)) eqn:E.
    + pose proof (forallb_space_last _ _ Hl E). congruence.
    + rewrite andb_false_r. simpl orb. by apply IH.
Qed.

Lemma hasSentenceBoundary_punct (buffer : jsstring) :
  hasSentenceBoundary buffer = ends_with_punct (trimEnd buffer).
Proof.
  unfold hasSentenceBoundary, ends_with_punct.
  destruct (last (trimEnd buffer)) as [c|] eqn:E.
  - apply boundary_regex_last; [done|]. by eapply trimEnd_last.
  - apply last_None in E. by rewrite E.
Qed.

(** The condition of the loop, in words. *)
Lemma shouldFlush_true (buffer : jsstring) :
  shouldFlush buffer = true <->
  (ends_with_punct (trimEnd buffer) = true /\ 3 <= wordCount buffer)
  \/ 10 <= wordCount buffer.
Proof.
  unfold shouldFlush. rewrite hasSentenceBoundary_punct.
  rewrite orb_true_iff, andb_true_iff, !bool_decide_eq_true. tauto.
Qed.

Lemma shouldFlush_flush_rule (buffer : jsstring) :
  shouldFlush buffer = true -> flush_rule buffer.
Proof.
  intros H. apply shouldFlush_true in H as [[H1 H2]|H]; [left|by right].
  split; [|done]. unfold sentence_end. by rewrite H1.
Qed.

Lemma step_concat (st : list jsstring * jsstring) (word : jsstring) :
  concat (step st word).1 ++ (step st word).2
  = concat st.1 ++ st.2 ++ word.
Proof.
  unfold step. destruct (shouldFlush (st.2 ++ word)); simpl; [|done].
  by rewrite concat_app, app_nil_r; simpl; rewrite app_nil_r.
Qed.

Lemma run_concat (words : list jsstring) (st : list jsstring * jsstring) :
  concat (run words st).1 ++ (run words st).2
  = concat st.1 ++ st.2 ++ concat words.
Proof.
  revert st. induction words as [|w words IH]; intros st; simpl.
  - by rewrite app_nil_r.
  - unfold run in IH. rewrite IH, app_assoc, step_concat.
    by rewrite <- !app_assoc.
Qed.

(** Every chunk pushed by the loop passed the test of the loop. *)
Lemma run_chunks (words : list jsstring) (st : list jsstring * jsstring) :
  Forall (fun c => shouldFlush c = true) st.1 ->
  Forall (fun c => shouldFlush c = true) (run words st).1.
Proof.
  revert st. induction words as [|w words IH]; intros st H; [done|].
  simpl. apply IH. unfold step.
  destruct (shouldFlush (st.2 ++ w)) eqn:E; simpl; [|done].
  apply Forall_app. split; [done|]. by constructor.
Qed.

(** The buffer carried from one iteration to the next fails the test. *)
Lemma run_buffer (words : list jsstring) (st : list jsstring * jsstring) :
  shouldFlush st.2 = false -> shouldFlush (run words st).2 = false.
Proof.
  revert st. induction words as [|w words IH]; intros st H; [done|].
  simpl. apply IH. unfold step.
  by destruct (shouldFlush (st.2 ++ w)) eqn:E.
Qed.

Lemma chunk_loop_concat (text : jsstring) :
  concat (chunk_loop text).1 ++ (chunk_loop text).2 = text.
Proof.
  unfold chunk_loop. rewrite run_concat. simpl.
  apply concat_split_keep_ws.
Qed.

Lemma has_word_forallb (s : jsstring) :
  has_word s = negb (forallb is_space s).
Proof.
  unfold has_word. induction s as [|c s IH]; simpl; [done|].
  rewrite IH. by destruct (is_space c).
Qed.

(** The last statement of the function: the remainder is pushed when it
    holds a character that is not whitespace. *)
Lemma chunkTextForStreaming_final (text : jsstring) :
  chunkTextForStreaming text
  = (chunk_loop text).1
    ++ (if has_word (chunk_loop text).2 then [(chunk_loop text).2] else []).
Proof.
  unfold chunkTextForStreaming.
  destruct (chunk_loop text) as [chunks buffer]; simpl.
  rewrite truthy_trim, has_word_forallb.
  destruct (forallb is_space buffer); simpl; by rewrite ?app_nil_r.
Qed.

Lemma dropped_remainder_final (text : jsstring) :
  dropped_remainder text
  = if has_word (chunk_loop text).2 then [] else (chunk_loop text).2.
Proof.
  unfold dropped_remainder.
  destruct (chunk_loop text) as [chunks buffer]; simpl.
  by rewrite truthy_trim, has_word_forallb.
Qed.

Lemma dropped_remainder_space (text : jsstring) :
  forallb is_space (dropped_remainder text) = true.
Proof.
  rewrite dropped_remainder_final, has_word_forallb.
  by destruct (forallb is_space (chunk_loop text).2) eqn:E.
Qed.

Lemma chunks_dropped_text (text : jsstring) :
  concat (chunkTextForStreaming text) ++ dropped_remainder text = text.
Proof.
  rewrite chunkTextForStreaming_final, dropped_remainder_final.
  pose proof (chunk_loop_concat text) as H.
  destruct (has_word (chunk_loop text).2); rewrite concat_app; simpl;
    rewrite ?app_nil_r; exact H.
Qed.

End ChunkerFacts.

(** ** The chunker: round trip and flush rule *)

Module ChunkerSpec.
Import JS JSFacts Chunker ChunkerFacts.

(** C1, as the code has it: the chunks, joined in the order of emission,
    are the fed text without the whitespace-only remainder that the final
    [if (buffer.trim())] does not push.  The joined chunks followed by that
    remainder are the text, the remainder holds whitespace only, and a text
    that does not end with whitespace is reproduced exactly. *)
Theorem chunks_roundtrip_up_to_trailing_space (text : jsstring) :
  concat (chunkTextForStreaming text) ++ dropped_remainder text = text
  /\ forallb is_space (dropped_remainder text) = true
  /\ (ends_with_space text = false ->
      concat (chunkTextForStreaming text) = text).
Proof.
  split; [apply chunks_dropped_text|].
  split; [apply dropped_remainder_space|].
  intros Hend.
  pose proof (chunks_dropped_text text) as Hcat.
  pose proof (dropped_remainder_space text) as Hsp.
  destruct (dropped_remainder text) as [|c r] eqn:E.
  - by rewrite app_nil_r in Hcat.
  - exfalso. unfold ends_with_space in Hend.
    rewrite <- Hcat, last_app in Hend.
    destruct (last (c :: r)) as [d|] eqn:El.
    + pose proof (forallb_space_last _ _ El Hsp). congruence.
    + by apply last_None in El.
Qed.

(** A text that ends with a full stop comes back whole. *)
Lemma chunks_roundtrip_witness :
  ends_with_space (js "Run the tests. Then commit.") = false
  /\ concat (chunkTextForStreaming (js "Run the tests. Then commit."))
     = js "Run the tests. Then commit.".
Proof.
  split; [reflexivity|].
  apply (chunks_roundtrip_up_to_trailing_space
           (js "Run the tests. Then commit.")).
  reflexivity.
Defined.

(** C1 as stated fails: the space after the sentence is lost. *)
Lemma chunks_roundtrip_counterexample :
  chunkTextForStreaming (js "a b c. ") = [js "a b c."]
  /\ concat (chunkTextForStreaming (js "a b c. ")) <> js "a b c. ".
Proof. split; [reflexivity | discriminate]. Qed.

(** C5, as the code has it.  For a buffer whose trailing whitespace holds
    no blank line, the loop flushes exactly when the buffer, whitespace at
    its end apart, ends with [.], [!] or [?] and has at least three words,
    or has at least ten words.  For every text: each chunk pushed by the
    loop satisfies the rule; the buffer carried over after each piece does
    not (the flush happens the first time the rule holds); and at the end
    the remainder is pushed only when it holds a character that is not
    whitespace. *)
Theorem chunker_flush_rule (buffer text : jsstring) :
  (ends_with_blank_line buffer = false ->
   (shouldFlush buffer = true <-> flush_rule buffer))
  /\ Forall flush_rule (chunk_loop text).1
  /\ (forall n : nat,
        let carried := (run (take n (split_keep_ws text)) ([], [])).2 in
        ends_with_blank_line carried = false -> ~ flush_rule carried)
  /\ chunkTextForStreaming text
     = (chunk_loop text).1
       ++ (if has_word (chunk_loop text).2
           then [(chunk_loop text).2] else []).
Proof.
  assert (Hrule : forall b, ends_with_blank_line b = false ->
                            (shouldFlush b = true <-> flush_rule b)).
  { intros b Hb. rewrite shouldFlush_true. unfold flush_rule, sentence_end.
    by rewrite Hb, orb_false_r. }
  split; [apply Hrule|].
  split.
  { eapply Forall_impl; [apply run_chunks; constructor|].
    intros c Hc. by apply shouldFlush_flush_rule. }
  split; [|apply chunkTextForStreaming_final].
  intros n carried Hblank Hflush.
  apply Hrule in Hflush; [|done].
  unfold carried in Hflush. rewrite run_buffer in Hflush; done.
Qed.

(** The rule at a three-word sentence. *)
Lemma chunker_flush_rule_witness :
  ends_with_blank_line (js "Fix the bug.") = false
  /\ (shouldFlush (js "Fix the bug.") = true
      <-> flush_rule (js "Fix the bug.")).
Proof.
  split; [reflexivity|].
  apply (chunker_flush_rule (js "Fix the bug.") []).
  reflexivity.
Defined.

(** C5 as stated fails at the end of the text: a remainder of one space is
    not empty, and is not pushed. *)
Lemma chunker_flush_rule_counterexample :
  chunk_loop (js " ") = ([], js " ")
  /\ js " " <> []
  /\ chunkTextForStreaming (js " ") = [].
Proof. split; [reflexivity | split; [discriminate | reflexivity]]. Qed.

(** A blank line after three words: the regular expression is tested on
    the trimmed buffer, so the line feeds are never seen and the loop goes
    on to the next piece. *)
Example blank_line_is_not_a_boundary :
  hasSentenceBoundary (js "a b c" ++ [10; 10]%N) = false
  /\ chunkTextForStreaming (js "a b c" ++ [10; 10]%N ++ js "d")
     = [js "a b c" ++ [10; 10]%N ++ js "d"].
Proof. split; reflexivity. Qed.

End ChunkerSpec.

(** ** Facts about the permission flow *)

Module PermissionFacts.
Import Permission PermissionProps.

(** *** Promises settle once *)

Lemma resolve_promise_pending p d st :
  pending st p -> settled (resolve_promise p d st) p d.
Proof.
  unfold pending, settled, resolve_promise. intros H. rewrite H. simpl.
  apply list_lookup_insert_eq. by eapply lookup_lt_Some.
Qed.

Lemma resolve_promise_settled p q d dq st :
  settled st p d -> settled (resolve_promise q dq st) p d.
Proof.
  unfold settled, resolve_promise. intros H.
  destruct (promises st !! q) as [[e|]|] eqn:E; try done. simpl.
  destruct (decide (q = p)) as [->|Hne]; [congruence|].
  by rewrite list_lookup_insert_ne.
Qed.

Lemma resolve_promise_other p q dq st :
  p <> q ->
  promises (resolve_promise q dq st) !! p = promises st !! p.
Proof.
  unfold resolve_promise. intros Hne.
  destruct (promises st !! q) as [[e|]|] eqn:E; try done. simpl.
  by rewrite list_lookup_insert_ne.
Qed.

Lemma resolve_promise_length q dq st :
  length (promises (resolve_promise q dq st)) = length (promises st).
Proof.
  unfold resolve_promise.
  destruct (promises st !! q) as [[e|]|] eqn:E; try done. simpl.
  apply length_insert.
Qed.

(** Fields that resolving a promise leaves alone. *)
Lemma resolve_promise_frame q dq st :
  tasks (resolve_promise q dq st) = tasks st
  /\ sessions (resolve_promise q dq st) = sessions st
  /\ settings_files (resolve_promise q dq st) = settings_files st
  /\ pendingRequests (resolve_promise q dq st) = pendingRequests st
  /\ timers (resolve_promise q dq st) = timers st
  /\ listeners (resolve_promise q dq st) = listeners st
  /\ aborted (resolve_promise q dq st) = aborted st
  /\ emitted (resolve_promise q dq st) = emitted st.
Proof.
  unfold resolve_promise.
  by destruct (promises st !! q) as [[e|]|].
Qed.

Lemma on_abort_settled c p d st :
  settled st p d -> settled (on_abort c st) p d.
Proof. intros H. unfold on_abort. by apply resolve_promise_settled. Qed.

Lemma abort_fold_settled signal ls p d st :
  settled st p d ->
  settled
    (fold_left
       (fun s (l : nat * Closure) =>
          if decide (l.1 = signal) then on_abort l.2 s else s) ls st) p d.
Proof.
  revert st. induction ls as [|l ls IH]; intros st H; [done|].
  simpl. apply IH. case_decide; [by apply on_abort_settled | done].
Qed.

Lemma abort_settled signal p d st :
  settled st p d -> settled (abort signal st) p d.
Proof.
  intros H. unfold abort. case_decide; [done|].
  by apply abort_fold_settled.
Qed.

Lemma timer_fire_settled t p d st :
  settled st p d -> settled (timer_fire t st) p d.
Proof.
  intros H. unfold timer_fire.
  destruct (timers st !! t) as [c|]; [|done].
  by apply resolve_promise_settled.
Qed.

Lemma resolvePermission_settled decision p d st :
  settled st p d -> settled (resolvePermission decision st) p d.
Proof.
  intros H. unfold resolvePermission.
  destruct (pendingRequests st !! requestId decision) as [pd|]; [|done].
  unfold settled. simpl.
  by apply (resolve_promise_settled p (resolve pd) d decision).
Qed.

Lemma waitForDecision_settled rid signal p d st :
  settled st p d -> settled (waitForDecision rid signal st).1 p d.
Proof.
  unfold settled, waitForDecision. simpl. intros H.
  rewrite lookup_app_l; [done|]. by eapply lookup_lt_Some.
Qed.

Lemma hook_settled sessionId taskId input toolUseID signal requestId now now'
  p d st st' out :
  createPreToolUseHook sessionId taskId input toolUseID signal requestId
    now now' st = (st', out) ->
  settled st p d -> settled st' p d.
Proof.
  unfold createPreToolUseHook. intros Hrun H.
  destruct (sessions st !! sessionId) as [found|]; [|by injection Hrun as <-].
  destruct (includes _ _); [by injection Hrun as <-|].
  injection Hrun as <- _.
  unfold settled in *. simpl.
  rewrite lookup_app_l; [done|]. by eapply lookup_lt_Some.
Qed.

Lemma updateProjectSettings_promises cwd tools st :
  promises (updateProjectSettings cwd tools st).1 = promises st.
Proof.
  unfold updateProjectSettings.
  by destruct (settings_files st !! cwd).
Qed.

Lemma resume_with_promises f decision now st :
  promises (resume_with f decision now st).1 = promises st.
Proof.
  unfold resume_with.
  destruct (remember decision); [|done].
  destruct (scope decision); try done.
  pose proof (updateProjectSettings_promises
                (repo_cwd (frame_session f))
                [input_tool_name (frame_input f)]
                (tasks_update (frame_taskId f)
                   (approval_patch (allow decision) (decidedBy decision) now)
                   st)) as H.
  by destruct (updateProjectSettings _ _ _) as [st2 [u|e]].
Qed.

Lemma resume_settled f now p d st st' out :
  createPreToolUseHook_resume f now st = Some (st', out) ->
  settled st p d -> settled st' p d.
Proof.
  unfold createPreToolUseHook_resume, settled. intros Hrun H.
  destruct (promises st !! frame_promise f) as [[decision|]|]; try done.
  injection Hrun as Hrun.
  pose proof (resume_with_promises f decision now st) as Hp.
  rewrite Hrun in Hp. simpl in Hp. by rewrite Hp.
Qed.

Lemma decision_settled data route_id now p d st st' out :
  permission_decision_create data route_id now st = (st', out) ->
  settled st p d -> settled st' p d.
Proof.
  unfold permission_decision_create. intros Hrun H.
  repeat (match type of Hrun with
          | context [match ?x with _ => _ end] => destruct x
          end; try by injection Hrun as <-).
  injection Hrun as <- _.
  by apply resolvePermission_settled.
Qed.

(** A fulfilled promise keeps its value, whatever happens next. *)
Lemma step_settled st st' p d :
  step st st' -> settled st p d -> settled st' p d.
Proof.
  intros Hstep H. destruct Hstep.
  - by eapply hook_settled.
  - by eapply resume_settled.
  - by apply abort_settled.
  - by apply timer_fire_settled.
  - by eapply decision_settled.
  - by apply resolvePermission_settled.
  - by apply waitForDecision_settled.
Qed.

Lemma steps_settled st st' p d :
  steps st st' -> settled st p d -> settled st' p d.
Proof.
  induction 1 as [|st1 st2 st3 Hstep _ IH]; [done|].
  intros H. apply IH. by eapply step_settled.
Qed.

(** *** The first event settles the promise *)

Lemma waitForDecision_registered rid signal st :
  registered (waitForDecision rid signal st).1 rid
    (length (promises st)) (next_timer st).
Proof.
  unfold registered, pending, waitForDecision. simpl.
  split; [by rewrite lookup_app_r, Nat.sub_diag|].
  split; by rewrite lookup_insert_eq.
Qed.

Lemma waitForDecision_listening rid signal st :
  listeners_allocated st -> signal ∉ aborted st ->
  listening (waitForDecision rid signal st).1 rid signal
    (length (promises st)).
Proof.
  intros Hal Hsig. unfold listening, waitForDecision. simpl.
  split; [done|].
  split; [apply elem_of_app; right; by apply list_elem_of_singleton|].
  intros s r Hin. apply elem_of_app in Hin as [Hin|Hin].
  - apply Hal in Hin. lia.
  - apply list_elem_of_singleton in Hin. by injection Hin.
Qed.

Lemma delivery_settles st rid p t d :
  registered st rid p t -> requestId d = rid ->
  settled (resolvePermission d st) p d.
Proof.
  intros (Hp & Hreq & _) <-. unfold resolvePermission. rewrite Hreq.
  unfold settled. simpl.
  by apply (resolve_promise_pending p d).
Qed.

Lemma timer_settles st rid p t :
  registered st rid p t -> settled (timer_fire t st) p (timed_out rid).
Proof.
  intros (Hp & _ & Ht). unfold timer_fire. rewrite Ht.
  by apply (resolve_promise_pending p (timed_out rid)).
Qed.

(** The first listener of the signal that holds [p] fulfils it. *)
Lemma abort_fold_cancels signal ls p rid st :
  pending st p ->
  (signal, (rid, p)) ∈ ls ->
  exists r,
    (signal, (r, p)) ∈ ls
    /\ settled
         (fold_left
            (fun s (l : nat * Closure) =>
               if decide (l.1 = signal) then on_abort l.2 s else s) ls st)
         p (cancelled r).
Proof.
  revert st. induction ls as [|[s0 [r0 q]] ls IH]; intros st Hp Hin.
  - by apply elem_of_nil in Hin.
  - simpl. case_decide as Hs; simpl in Hs.
    + destruct (decide (q = p)) as [->|Hq].
      * exists r0. subst s0. split; [by left|].
        apply abort_fold_settled. unfold on_abort. simpl.
        by apply (resolve_promise_pending p (cancelled r0)).
      * destruct (IH (on_abort (r0, q) st)) as (r & Hr & Hset).
        -- unfold pending, on_abort. simpl.
           by rewrite resolve_promise_other.
        -- apply elem_of_cons in Hin as [Heq|Hin]; [|done].
           injection Heq as _ _ Heq. congruence.
        -- exists r. split; [by right | done].
    + destruct (IH st) as (r & Hr & Hset); [done| |].
      * apply elem_of_cons in Hin as [Heq|Hin]; [|done].
        injection Heq as Heq _ _. congruence.
      * exists r. split; [by right | done].
Qed.

Lemma abort_cancels st rid signal p :
  pending st p -> (signal, (rid, p)) ∈ listeners st ->
  signal ∉ aborted st ->
  exists r,
    (signal, (r, p)) ∈ listeners st
    /\ settled (abort signal st) p (cancelled r).
Proof.
  intros Hp Hin Hsig. unfold abort. case_decide; [done|].
  by apply (abort_fold_cancels signal (listeners st) p rid).
Qed.

Lemma abort_settles st rid signal p :
  pending st p -> listening st rid signal p ->
  settled (abort signal st) p (cancelled rid).
Proof.
  intros Hp (Hsig & Hin & Huniq).
  destruct (abort_cancels st rid signal p Hp Hin Hsig) as (r & Hr & Hset).
  by rewrite <- (Huniq _ _ Hr).
Qed.

(** *** What each event does to the task store *)

Lemma abort_fold_frame {A : Type} (F : State -> A) signal ls st :
  (forall c s, F (on_abort c s) = F s) ->
  F (fold_left
       (fun s (l : nat * Closure) =>
          if decide (l.1 = signal) then on_abort l.2 s else s) ls st)
  = F st.
Proof.
  intros HF. revert st. induction ls as [|l ls IH]; intros st; [done|].
  simpl. rewrite IH. case_decide; [apply HF | done].
Qed.

Lemma on_abort_stores c st : stores (on_abort c st) = stores st.
Proof.
  unfold on_abort, stores.
  destruct (resolve_promise_frame c.2 (cancelled c.1)
              (set_pendingRequests (fun m => delete c.1 m) st))
    as (-> & -> & -> & _).
  done.
Qed.

Lemma abort_stores signal st : stores (abort signal st) = stores st.
Proof.
  unfold abort. case_decide; [done|].
  rewrite (abort_fold_frame stores); [done|]. apply on_abort_stores.
Qed.

Lemma timer_fire_stores t st : stores (timer_fire t st) = stores st.
Proof.
  unfold timer_fire, stores. destruct (timers st !! t) as [c|]; [|done].
  destruct (resolve_promise_frame c.2 (timed_out c.1)
              (set_pendingRequests (fun m => delete c.1 m)
                 (set_timers (fun ts => delete t ts) (next_timer st) st)))
    as (-> & -> & -> & _).
  done.
Qed.

Lemma abort_tasks signal st : tasks (abort signal st) = tasks st.
Proof. by injection (abort_stores signal st). Qed.

Lemma timer_fire_tasks t st : tasks (timer_fire t st) = tasks st.
Proof. by injection (timer_fire_stores t st). Qed.

Lemma resolvePermission_tasks d st : tasks (resolvePermission d st) = tasks st.
Proof.
  unfold resolvePermission.
  destruct (pendingRequests st !! requestId d); [|done]. simpl.
  by rewrite (proj1 (resolve_promise_frame _ _ _)).
Qed.

Lemma updateProjectSettings_tasks cwd tools st :
  tasks (updateProjectSettings cwd tools st).1 = tasks st.
Proof. unfold updateProjectSettings. by destruct (settings_files st !! cwd). Qed.

(** The continuation patches the task of its frame, and no other. *)
Lemma resume_with_tasks f decision now st :
  tasks (resume_with f decision now st).1
  = alter (approval_patch (allow decision) (decidedBy decision) now)
      (frame_taskId f) (tasks st).
Proof.
  unfold resume_with.
  destruct (remember decision); [|done].
  destruct (scope decision); try done.
  pose proof (updateProjectSettings_tasks
                (repo_cwd (frame_session f))
                [input_tool_name (frame_input f)]
                (tasks_update (frame_taskId f)
                   (approval_patch (allow decision) (decidedBy decision) now)
                   st)) as H.
  by destruct (updateProjectSettings _ _ _) as [st2 [u|e]].
Qed.

(** *** The state invariant of tasks *)

Lemma suspend_patch_invariant rid name input tuid now task :
  task_invariant
    (suspend_patch
       {| request_id := rid; tool_name := name; tool_input := input;
          tool_use_id := tuid; requested_at := now;
          approved_by := None; approved_at := None |} task).
Proof.
  unfold task_invariant, has_unresolved_request, unresolved. simpl.
  split; [|done]. intros _. by eexists.
Qed.

Lemma approval_patch_invariant a by_ at_ task :
  task_invariant (approval_patch a by_ at_ task).
Proof.
  unfold task_invariant, has_unresolved_request, unresolved. simpl. split.
  - by destruct a.
  - intros (r & Hr & _ & Hat).
    destruct (permission_request task); [|done].
    injection Hr as <-. discriminate Hat.
Qed.

Lemma alter_invariant (patch : Task -> Task) id (m : gmap string Task) :
  (forall task, task_invariant (patch task)) ->
  (forall i task, m !! i = Some task -> task_invariant task) ->
  forall i task, alter patch id m !! i = Some task -> task_invariant task.
Proof.
  intros Hpatch Hm i task. rewrite lookup_alter. case_decide as Hi.
  - destruct (m !! id) as [old|]; [|done]. simpl. intros [= <-].
    apply Hpatch.
  - apply Hm.
Qed.

Lemma step_invariant st st' : step st st' -> invariant st -> invariant st'.
Proof.
  unfold invariant. intros Hstep Hinv. destruct Hstep as
    [sid tid input tuid signal rid now now' st st' out Hrun
    |f now st st' out Hrun | signal st | t st
    |data route_id now st st' out Hrun | decision st | rid signal st].
  - unfold createPreToolUseHook in Hrun.
    destruct (sessions st !! sid) as [found|]; [|by injection Hrun as <-].
    destruct (includes _ _); [by injection Hrun as <-|].
    injection Hrun as <- _. simpl.
    apply alter_invariant; [|done].
    apply suspend_patch_invariant.
  - unfold createPreToolUseHook_resume in Hrun.
    destruct (promises st !! frame_promise f) as [[decision|]|]; try done.
    injection Hrun as Hrun.
    pose proof (resume_with_tasks f decision now st) as Ht.
    rewrite Hrun in Ht. simpl in Ht. rewrite Ht.
    apply alter_invariant; [|done].
    apply approval_patch_invariant.
  - by rewrite abort_tasks.
  - by rewrite timer_fire_tasks.
  - unfold permission_decision_create in Hrun.
    repeat (match type of Hrun with
            | context [match ?x with _ => _ end] => destruct x
            end; try by injection Hrun as <-).
    injection Hrun as <- _. rewrite resolvePermission_tasks. simpl.
    apply alter_invariant; [|done].
    apply approval_patch_invariant.
  - by rewrite resolvePermission_tasks.
  - done.
Qed.

(** *** The continuation of the hook *)

(** With a decision that is not to be remembered the continuation patches
    the task and returns. *)
Lemma resume_not_remembered f d now st :
  settled st (frame_promise f) d -> remember d = false ->
  createPreToolUseHook_resume f now st
  = Some (tasks_update (frame_taskId f)
            (approval_patch (allow d) (decidedBy d) now) st,
          Return (hook_output d)).
Proof.
  unfold settled, createPreToolUseHook_resume, resume_with.
  intros -> ->. done.
Qed.

Lemma approval_patch_lookup a by_ at_ id task st :
  tasks st !! id = Some task ->
  tasks (tasks_update id (approval_patch a by_ at_) st) !! id
  = Some (approval_patch a by_ at_ task).
Proof. intros H. simpl. by rewrite lookup_alter_eq, H. Qed.


(** With nothing pending under the id, [resolvePermission] returns at
    once. *)
Lemma resolvePermission_not_pending d st :
  pendingRequests st !! requestId d = None -> resolvePermission d st = st.
Proof. unfold resolvePermission. by intros ->. Qed.

Lemma resolvePermission_removes d st :
  pendingRequests (resolvePermission d st) !! requestId d = None.
Proof.
  unfold resolvePermission.
  destruct (pendingRequests st !! requestId d) as [pd|] eqn:E; [|done].
  simpl.
  destruct (resolve_promise_frame (resolve pd) d
              (set_timers (fun ts => delete (timeout pd) ts)
                 (next_timer st) st)) as (_ & _ & _ & -> & _).
  simpl. apply lookup_delete_eq.
Qed.

(** *** Listeners hold promises that exist, in every run *)

Lemma listeners_allocated_shape st st' :
  shape st' = shape st -> listeners_allocated st -> listeners_allocated st'.
Proof.
  unfold shape, listeners_allocated. intros [= Hl Hp] H s r p.
  rewrite Hl, Hp. apply H.
Qed.

Lemma resolve_promise_shape q dq st :
  shape (resolve_promise q dq st) = shape st.
Proof.
  unfold shape. rewrite resolve_promise_length.
  destruct (resolve_promise_frame q dq st) as (_ & _ & _ & _ & _ & -> & _).
  done.
Qed.

Lemma on_abort_shape c st : shape (on_abort c st) = shape st.
Proof. unfold on_abort. by rewrite resolve_promise_shape. Qed.

Lemma abort_shape signal st : shape (abort signal st) = shape st.
Proof.
  unfold abort. case_decide; [done|].
  rewrite (abort_fold_frame shape); [done|]. apply on_abort_shape.
Qed.

Lemma timer_fire_shape t st : shape (timer_fire t st) = shape st.
Proof.
  unfold timer_fire. destruct (timers st !! t) as [c|]; [|done].
  by rewrite resolve_promise_shape.
Qed.

Lemma resolvePermission_shape d st : shape (resolvePermission d st) = shape st.
Proof.
  unfold resolvePermission.
  destruct (pendingRequests st !! requestId d) as [pd|]; [|done].
  change (shape (resolve_promise (resolve pd) d
                   (set_timers (fun ts => delete (timeout pd) ts)
                      (next_timer st) st)) = shape st).
  by rewrite resolve_promise_shape.
Qed.

Lemma waitForDecision_allocated rid signal st :
  listeners_allocated st ->
  listeners_allocated (waitForDecision rid signal st).1.
Proof.
  unfold listeners_allocated, waitForDecision. simpl. intros H s r p Hin.
  rewrite length_app. simpl.
  apply elem_of_app in Hin as [Hin|Hin].
  - apply H in Hin. lia.
  - apply list_elem_of_singleton in Hin. injection Hin as _ _ ->. lia.
Qed.

Lemma resume_with_shape f decision now st :
  shape (resume_with f decision now st).1 = shape st.
Proof.
  unfold resume_with.
  destruct (remember decision); [|done].
  destruct (scope decision); try done.
  unfold updateProjectSettings. simpl.
  by destruct (settings_files st !! repo_cwd (frame_session f)).
Qed.

Lemma step_listeners_allocated st st' :
  step st st' -> listeners_allocated st -> listeners_allocated st'.
Proof.
  intros Hstep Hal. destruct Hstep as
    [sid tid input tuid signal rid now now' st st' out Hrun
    |f now st st' out Hrun | signal st | t st
    |data route_id now st st' out Hrun | decision st | rid signal st].
  - unfold createPreToolUseHook in Hrun.
    destruct (sessions st !! sid) as [found|]; [|by injection Hrun as <-].
    destruct (includes _ _); [by injection Hrun as <-|].
    injection Hrun as <- _.
    apply (waitForDecision_allocated rid signal
             (emitRequest _ (tasks_update tid _ st))).
    exact Hal.
  - unfold createPreToolUseHook_resume in Hrun.
    destruct (promises st !! frame_promise f) as [[decision|]|]; try done.
    injection Hrun as Hrun.
    eapply listeners_allocated_shape; [|exact Hal].
    pose proof (resume_with_shape f decision now st) as Hs.
    by rewrite Hrun in Hs.
  - eapply listeners_allocated_shape; [apply abort_shape | done].
  - eapply listeners_allocated_shape; [apply timer_fire_shape | done].
  - unfold permission_decision_create in Hrun.
    repeat (match type of Hrun with
            | context [match ?x with _ => _ end] => destruct x
            end; try by injection Hrun as <-).
    injection Hrun as <- _.
    eapply listeners_allocated_shape; [apply resolvePermission_shape|].
    exact Hal.
  - eapply listeners_allocated_shape; [apply resolvePermission_shape | done].
  - by apply waitForDecision_allocated.
Qed.

Lemma steps_listeners_allocated st st' :
  steps st st' -> listeners_allocated st -> listeners_allocated st'.
Proof.
  induction 1 as [|st1 st2 st3 Hstep _ IH]; [done|].
  intros H. apply IH. by eapply step_listeners_allocated.
Qed.

End PermissionFacts.

(** ** The permission flow: statements *)

Module PermissionSpec.
Import Permission PermissionProps PermissionFacts Scenario.

Lemma asked_is_suspended :
  createPreToolUseHook "s1" "t1" bash None 0 "r1" "10:00:00" "10:00:00" idle
  = (asked, Return (inr call)).
Proof. reflexivity. Qed.

(** C9: in every state that the permission operations (the hook and its
    continuation, a decision delivered to the endpoint or to
    [resolvePermission], a timer, an abort) reach from a state whose tasks
    satisfy it, each task has [status = awaiting_permission] exactly when
    its [permission_request] is present and carries no approval. *)
Theorem awaiting_permission_iff_unresolved_request (st st' : State) :
  invariant st -> steps st st' -> invariant st'.
Proof.
  intros Hinv Hsteps. induction Hsteps as [|st1 st2 st3 Hstep _ IH]; [done|].
  apply IH. by eapply step_invariant.
Qed.

Lemma idle_invariant : invariant idle.
Proof.
  intros id task H. unfold idle in H. simpl in H.
  apply lookup_singleton_Some in H as [_ <-].
  split; [discriminate|]. by intros (r & Hr & _).
Qed.

Lemma idle_steps_asked : steps idle asked.
Proof.
  eapply rtc_l; [|apply rtc_refl].
  eapply step_hook. apply asked_is_suspended.
Qed.

(** The invariant after the hook has suspended task [t1]. *)
Lemma awaiting_permission_iff_unresolved_request_witness :
  invariant idle /\ steps idle asked /\ invariant asked.
Proof.
  split; [apply idle_invariant|].
  split; [apply idle_steps_asked|].
  apply (awaiting_permission_iff_unresolved_request idle asked).
  - apply idle_invariant.
  - apply idle_steps_asked.
Defined.

(** C10: the promise returned by [waitForDecision] settles once, with the
    outcome of the first event.  After the call the request is registered
    and, unless the signal had fired before, listens to it.  While the
    request is registered, a decision delivered for its id fulfils the
    promise with that decision and its timer with the ["Timeout"] decision;
    while the promise is pending and the call listens, the abort of its
    signal fulfils it with the ["Cancelled"] decision.  And a fulfilled
    promise keeps its value through every later event. *)
Theorem waitForDecision_settles_once (st : State) (rid : string)
  (signal : nat) :
  listeners_allocated st ->
  let p := (waitForDecision rid signal st).2 in
  registered (waitForDecision rid signal st).1 rid p (next_timer st)
  /\ (signal ∉ aborted st ->
      listening (waitForDecision rid signal st).1 rid signal p)
  /\ (forall sw t, registered sw rid p t ->
        (forall d, requestId d = rid -> settled (resolvePermission d sw) p d)
        /\ settled (timer_fire t sw) p (timed_out rid))
  /\ (forall sw, pending sw p -> listening sw rid signal p ->
        settled (abort signal sw) p (cancelled rid))
  /\ (forall s2 s3 d, settled s2 p d -> steps s2 s3 -> settled s3 p d).
Proof.
  intros Hal p.
  split; [apply waitForDecision_registered|].
  split; [intros Hsig; by apply waitForDecision_listening|].
  split.
  { intros sw t Hw.
    split; [intros d Hd; by eapply delivery_settles | by eapply timer_settles]. }
  split.
  - intros sw Hp Hl. by apply abort_settles.
  - intros s2 s3 d Hs Hsteps. by eapply steps_settled.
Qed.

Lemma idle_listeners_allocated : listeners_allocated idle.
Proof. intros s r p H. by apply elem_of_nil in H. Qed.

(** The first call of [waitForDecision] in the idle daemon. *)
Lemma waitForDecision_settles_once_witness :
  listeners_allocated idle
  /\ registered (waitForDecision "r1" 0 idle).1 "r1" 0 0.
Proof.
  split; [apply idle_listeners_allocated|].
  apply (waitForDecision_settles_once idle "r1" 0).
  apply idle_listeners_allocated.
Defined.

(** C3, as the code has it: when the timer of a pending request fires
    before any decision, the promise is fulfilled with a decision that
    denies, has the reason ["Timeout"] and is not to be remembered; the
    hook then returns [deny] with that reason, the task goes from
    [awaiting_permission] to [failed], and no allow-list is written. *)
Theorem timeout_denies_and_fails_task (st : State) (f : Frame) (t : nat)
  (rid now : string) (task : Task) :
  pending st (frame_promise f) ->
  timers st !! t = Some (rid, frame_promise f) ->
  tasks st !! frame_taskId f = Some task ->
  status task = awaiting_permission ->
  (exists d,
      settled (timer_fire t st) (frame_promise f) d
      /\ allow d = false /\ reason d = Some "Timeout"
      /\ remember d = false)
  /\ exists st',
      createPreToolUseHook_resume f now (timer_fire t st)
      = Some (st', Return {| permissionDecision := Deny;
                             permissionDecisionReason := Some "Timeout" |})
      /\ status_of st' (frame_taskId f) = Some failed
      /\ sessions st' = sessions st
      /\ settings_files st' = settings_files st.
Proof.
  intros Hp Ht Htask _.
  assert (Hset : settled (timer_fire t st) (frame_promise f) (timed_out rid)).
  { unfold timer_fire. rewrite Ht.
    by apply (resolve_promise_pending (frame_promise f) (timed_out rid)). }
  split; [by exists (timed_out rid)|].
  pose proof (resume_not_remembered f (timed_out rid) now _ Hset eq_refl)
    as Hres.
  eexists. split; [exact Hres|].
  pose proof (timer_fire_stores t st) as Hst. injection Hst as Hta Hse Hfi.
  split; [|by split].
  unfold status_of.
  rewrite (approval_patch_lookup _ _ _ _ task); [done|].
  by rewrite Hta.
Qed.

(** The request [r1] of the scenario times out. *)
Lemma timeout_denies_and_fails_task_witness :
  exists st',
    createPreToolUseHook_resume call "10:01:00" (timer_fire 0 asked)
    = Some (st', Return {| permissionDecision := Deny;
                           permissionDecisionReason := Some "Timeout" |})
    /\ status_of st' "t1" = Some failed
    /\ sessions st' = sessions asked
    /\ settings_files st' = settings_files asked.
Proof.
  apply (timeout_denies_and_fails_task asked call 0 "r1" "10:01:00"
           {| status := awaiting_permission;
              permission_request :=
                Some {| request_id := "r1"; tool_name := "Bash";
                        tool_input := [("command", "ls")];
                        tool_use_id := None; requested_at := "10:00:00";
                        approved_by := None; approved_at := None |} |});
    reflexivity.
Defined.

(** C3 as stated fails on the reason: it is ["Timeout"], not
    ["timeout"]. *)
Lemma timeout_reason_counterexample :
  exists d,
    promises (timer_fire 0 asked) !! 0 = Some (Some d)
    /\ reason d = Some "Timeout"
    /\ reason d <> Some "timeout".
Proof. eexists. split; [reflexivity|]. split; [reflexivity | discriminate]. Qed.




Lemma hook_short_circuit st sessionId taskId input toolUseID signal requestId
  now now' found :
  sessions st !! sessionId = Some found ->
  includes (allowedTools found) (input_tool_name input) = true ->
  createPreToolUseHook sessionId taskId input toolUseID signal requestId
    now now' st
  = (st, Return (inl allowed_by_session_config)).
Proof. unfold createPreToolUseHook. by intros -> ->. Qed.

(** C7, as the code has it: for a tool of the session allow-list the hook
    returns [allow] with the reason ["Allowed by session config"] at once;
    the state is the one it started from, so nothing is suspended and no
    [permission:request] is emitted.  And once the continuation of a hook
    has run with a decision to remember for the session, every call of the
    hook for that tool in that session, from the state it leaves, returns
    in this way. *)
Theorem session_allow_list_short_circuits :
  (forall (st : State) (sessionId taskId : string)
      (input : PreToolUseHookInput) (toolUseID : option string)
      (signal : nat) (requestId now now' : string) (found : Session),
      sessions st !! sessionId = Some found ->
      includes (allowedTools found) (input_tool_name input) = true ->
      createPreToolUseHook sessionId taskId input toolUseID signal requestId
        now now' st
      = (st, Return (inl allowed_by_session_config)))
  /\ (forall (st st' : State) (f : Frame) (d : PermissionDecision)
         (now : string) (out : Outcome HookJSONOutput),
        settled st (frame_promise f) d ->
        remember d = true -> scope d = session ->
        is_Some (sessions st !! frame_sessionId f) ->
        createPreToolUseHook_resume f now st = Some (st', out) ->
        forall (taskId : string) (input : PreToolUseHookInput)
          (toolUseID : option string) (signal : nat)
          (requestId now1 now2 : string),
          input_tool_name input = input_tool_name (frame_input f) ->
          createPreToolUseHook (frame_sessionId f) taskId input toolUseID
            signal requestId now1 now2 st'
          = (st', Return (inl allowed_by_session_config))).
Proof.
  split; [intros; by eapply hook_short_circuit|].
  intros st st' f d now out Hset Hrem Hscope [found Hfound] Hrun
    taskId input toolUseID signal requestId now1 now2 Hname.
  unfold createPreToolUseHook_resume in Hrun. rewrite Hset in Hrun.
  unfold resume_with in Hrun. rewrite Hrem, Hscope in Hrun.
  injection Hrun as <- _.
  eapply hook_short_circuit.
  - simpl. by rewrite lookup_alter_eq, Hfound.
  - simpl. rewrite Hname. apply bool_decide_eq_true.
    apply elem_of_app. right. by apply list_elem_of_singleton.
Qed.

Lemma session_allow_list_short_circuits_witness :
  exists st',
    createPreToolUseHook_resume call "10:00:21" remembered
    = Some (st', Return {| permissionDecision := Allow;
                           permissionDecisionReason := None |})
    /\ createPreToolUseHook "s1" "t1" bash None 0 "r2" "10:02:00"
         "10:02:00" st'
       = (st', Return (inl allowed_by_session_config)).
Proof.
  eexists. split; [reflexivity|].
  eapply (proj2 session_allow_list_short_circuits remembered _ call _
            "10:00:21").
  - reflexivity.
  - reflexivity.
  - reflexivity.
  - by eexists.
  - reflexivity.
  - reflexivity.
Defined.

(** C7 as stated fails on the reason: it is ["Allowed by session config"],
    not ["session policy"]. *)
Lemma session_policy_reason_counterexample :
  exists st out,
    sessions st !! "s1"
    = Some {| repo_cwd := "/repo"; allowedTools := Some ["Bash"] |}
    /\ createPreToolUseHook "s1" "t1" bash None 0 "r2" "10:02:00"
         "10:02:00" st = (st, Return (inl out))
    /\ permissionDecision out = Allow
    /\ permissionDecisionReason out <> Some "session policy".
Proof.
  exists (set_sessions
            (fun _ => {[ "s1" := {| repo_cwd := "/repo";
                                    allowedTools := Some ["Bash"] |} ]})
            idle).
  eexists. split; [reflexivity|]. split; [reflexivity|].
  split; [reflexivity | discriminate].
Qed.

(** C8, as the code has it: when the continuation of the hook runs with
    the decision [d], the task gets [status = running] if [d] allows and
    [failed] otherwise, and its [permission_request] stays on the task, with
    [approved_by] taken from the decision and [approved_at] from the
    clock. *)
Theorem resolved_request_updates_task (st : State) (f : Frame)
  (d : PermissionDecision) (now : string) (task : Task)
  (r : TaskPermissionRequest) :
  settled st (frame_promise f) d ->
  tasks st !! frame_taskId f = Some task ->
  permission_request task = Some r ->
  exists st' out,
    createPreToolUseHook_resume f now st = Some (st', out)
    /\ tasks st' !! frame_taskId f
       = Some {| status := if allow d then running else failed;
                 permission_request :=
                   Some {| request_id := request_id r;
                           tool_name := tool_name r;
                           tool_input := tool_input r;
                           tool_use_id := tool_use_id r;
                           requested_at := requested_at r;
                           approved_by := decidedBy d;
                           approved_at := Some now |} |}.
Proof.
  intros Hset Htask Hreq.
  unfold createPreToolUseHook_resume. rewrite Hset.
  destruct (resume_with f d now st) as [st' out] eqn:E.
  exists st', out. split; [done|].
  pose proof (resume_with_tasks f d now st) as Ht.
  rewrite E in Ht. simpl in Ht.
  rewrite Ht, lookup_alter_eq, Htask. simpl.
  unfold approval_patch. by rewrite Hreq.
Qed.

(** The task of the scenario after Alice's decision. *)
Lemma resolved_request_updates_task_witness :
  exists st' out,
    createPreToolUseHook_resume call "10:00:21" remembered = Some (st', out)
    /\ tasks st' !! "t1"
       = Some {| status := running;
                 permission_request :=
                   Some {| request_id := "r1"; tool_name := "Bash";
                           tool_input := [("command", "ls")];
                           tool_use_id := None;
                           requested_at := "10:00:00";
                           approved_by := Some "alice";
                           approved_at := Some "10:00:21" |} |}.
Proof.
  pose (r := {| request_id := "r1"; tool_name := "Bash";
                tool_input := [("command", "ls")];
                tool_use_id := None; requested_at := "10:00:00";
                approved_by := Some "alice";
                approved_at := Some "10:00:20" |}).
  apply (resolved_request_updates_task remembered call
           {| requestId := "r1"; taskId := Some "t1"; allow := true;
              reason := None; remember := true; scope := session;
              decidedBy := Some "alice" |}
           "10:00:21"
           {| status := running; permission_request := Some r |} r);
    reflexivity.
Defined.

(** C8 as stated fails on the last point: after the hook has returned,
    [permission_request] is still on the task. *)
Lemma permission_request_kept_counterexample :
  exists st',
    createPreToolUseHook_resume call "10:00:21" remembered
    = Some (st', Return {| permissionDecision := Allow;
                           permissionDecisionReason := None |})
    /\ status_of st' "t1" = Some running
    /\ request_of st' "t1" <> None.
Proof.
  eexists. split; [reflexivity|]. split; [reflexivity | discriminate].
Qed.

(** C2, as the code has it: a well-formed decision whose [requestId] is
    not the one of the task's pending request, and is not pending in the
    service, is accepted: the endpoint returns success, resolves nothing
    (pending requests, promises, timers and allow-lists are as before) and
    patches the task from the decision all the same, [status] and approval
    fields included.  The endpoint never compares request ids. *)
Theorem stale_decision_is_accepted_and_patches_task (st : State)
  (data : DecisionPayload) (route_id : option string)
  (now rid tid user : string) (a : bool) (task : Task)
  (r : TaskPermissionRequest) :
  is_Some (truthy_string route_id) ->
  truthy_string (body_requestId data) = Some rid ->
  truthy_string (body_taskId data) = Some tid ->
  truthy_string (body_decidedBy data) = Some user ->
  body_allow data = Some a ->
  tasks st !! tid = Some task ->
  permission_request task = Some r ->
  request_id r <> rid ->
  pendingRequests st !! rid = None ->
  exists st',
    permission_decision_create data route_id now st = (st', Return true)
    /\ tasks st' !! tid
       = Some {| status := if a then running else failed;
                 permission_request :=
                   Some (set_approval (Some user) now r) |}
    /\ pendingRequests st' = pendingRequests st
    /\ promises st' = promises st
    /\ timers st' = timers st
    /\ sessions st' = sessions st
    /\ settings_files st' = settings_files st.
Proof.
  intros [sid Hsid] Hrid Htid Huser Ha Htask Hreq _ Hpending.
  unfold permission_decision_create.
  rewrite Hsid, Hrid, Htid, Huser, Ha.
  rewrite resolvePermission_not_pending; [|done].
  eexists. split; [done|]. simpl.
  rewrite lookup_alter_eq, Htask. simpl.
  unfold approval_patch. by rewrite Hreq.
Qed.

(** A decision for the unknown request [r0] reaches task [t1], which waits
    for [r1]. *)
Lemma stale_decision_is_accepted_and_patches_task_witness :
  exists st',
    permission_decision_create (allow_for_session "r0") (Some "s1")
      "10:00:30" asked = (st', Return true)
    /\ tasks st' !! "t1"
       = Some {| status := running;
                 permission_request :=
                   Some {| request_id := "r1"; tool_name := "Bash";
                           tool_input := [("command", "ls")];
                           tool_use_id := None;
                           requested_at := "10:00:00";
                           approved_by := Some "alice";
                           approved_at := Some "10:00:30" |} |}
    /\ pendingRequests st' = pendingRequests asked
    /\ promises st' = promises asked
    /\ timers st' = timers asked
    /\ sessions st' = sessions asked
    /\ settings_files st' = settings_files asked.
Proof.
  pose (r := {| request_id := "r1"; tool_name := "Bash";
                tool_input := [("command", "ls")];
                tool_use_id := None; requested_at := "10:00:00";
                approved_by := None; approved_at := None |}).
  apply (stale_decision_is_accepted_and_patches_task asked
           (allow_for_session "r0") (Some "s1") "10:00:30" "r0" "t1" "alice"
           true
           {| status := awaiting_permission; permission_request := Some r |}
           r).
  - by eexists.
  - reflexivity.
  - reflexivity.
  - reflexivity.
  - reflexivity.
  - reflexivity.
  - reflexivity.
  - discriminate.
  - reflexivity.
Defined.

(** C2 as stated fails: the stale decision is not rejected, and the task
    goes from [awaiting_permission] to [running] with an approval on its
    request. *)
Lemma stale_decision_counterexample :
  exists st',
    request_id <$> request_of asked "t1" = Some "r1"
    /\ body_requestId (allow_for_session "r0") = Some "r0"
    /\ permission_decision_create (allow_for_session "r0") (Some "s1")
         "10:00:30" asked = (st', Return true)
    /\ status_of asked "t1" = Some awaiting_permission
    /\ status_of st' "t1" = Some running
    /\ request_of st' "t1" <> request_of asked "t1".
Proof.
  eexists. repeat (split; [reflexivity|]). discriminate.
Qed.

(** C6, as the code has it: [resolvePermission] for an id that is unknown
    or already resolved returns the state it was given, so calling it twice
    with one decision is calling it once.  At the endpoint, the second
    delivery of a decision is answered with success and resolves nothing:
    pending requests, promises, timers, allow-lists and emitted events are
    as before.  It patches the task once more, and the patch is the one of
    the payload: the task is the one named by [taskId], its status follows
    [allow], [approved_by] is [decidedBy] and [approved_at] is the time of
    the second delivery; no other task is touched. *)
Theorem repeated_delivery_resolves_nothing :
  (forall (d : PermissionDecision) (st : State),
      pendingRequests st !! requestId d = None ->
      resolvePermission d st = st)
  /\ (forall (d : PermissionDecision) (st : State),
        resolvePermission d (resolvePermission d st)
        = resolvePermission d st)
  /\ (forall (data : DecisionPayload) (route_id : option string)
         (now1 now2 : string) (st st1 : State),
        permission_decision_create data route_id now1 st
        = (st1, Return true) ->
        exists (tid user : string) (a : bool) (st2 : State),
          body_taskId data = Some tid
          /\ body_decidedBy data = Some user
          /\ body_allow data = Some a
          /\ permission_decision_create data route_id now2 st1
             = (st2, Return true)
          /\ st2 = tasks_update tid (approval_patch a (Some user) now2) st1
          /\ pendingRequests st2 = pendingRequests st1
          /\ promises st2 = promises st1
          /\ timers st2 = timers st1
          /\ sessions st2 = sessions st1
          /\ settings_files st2 = settings_files st1
          /\ emitted st2 = emitted st1
          /\ (forall task : Task,
                tasks st1 !! tid = Some task ->
                status_of st2 tid = Some (if a then running else failed)
                /\ request_of st2 tid
                   = set_approval (Some user) now2
                     <$> permission_request task)
          /\ (forall other : string,
                other <> tid -> tasks st2 !! other = tasks st1 !! other)).
Proof.
  split; [apply resolvePermission_not_pending|].
  split.
  - intros d st. apply resolvePermission_not_pending.
    apply resolvePermission_removes.
  - intros data route_id now1 now2 st st1 Hrun.
    unfold permission_decision_create in *.
    destruct (truthy_string route_id) as [sid|]; [|done].
    destruct (truthy_string (body_requestId data)) as [rid|]; [|done].
    destruct (truthy_string (body_taskId data)) as [tid|] eqn:Htid; [|done].
    destruct (truthy_string (body_decidedBy data)) as [user|] eqn:Huser;
      [|done].
    destruct (body_allow data) as [a|]; [|done].
    injection Hrun as <-.
    assert (body_taskId data = Some tid) as Htid'.
    { destruct (body_taskId data) as [x|]; [|done].
      simpl in Htid. by case_decide. }
    assert (body_decidedBy data = Some user) as Huser'.
    { destruct (body_decidedBy data) as [x|]; [|done].
      simpl in Huser. by case_decide. }
    set (d := {| requestId := rid; taskId := Some tid; allow := a;
                 reason := body_reason data;
                 remember := body_remember data;
                 scope := body_scope data; decidedBy := Some user |}).
    set (st1 := resolvePermission d
                  (tasks_update tid (approval_patch a (Some user) now1) st)).
    assert (resolvePermission d
              (tasks_update tid (approval_patch a (Some user) now2) st1)
            = tasks_update tid (approval_patch a (Some user) now2) st1)
      as Hsecond.
    { apply resolvePermission_not_pending. simpl.
      apply (resolvePermission_removes d). }
    exists tid, user, a,
      (tasks_update tid (approval_patch a (Some user) now2) st1).
    split; [exact Htid'|]. split; [exact Huser'|].
    split; [reflexivity|].
    split; [by rewrite Hsecond|].
    do 7 (split; [reflexivity|]).
    split.
    + intros task Htask. unfold status_of, request_of.
      by rewrite (approval_patch_lookup _ _ _ _ _ _ Htask).
    + intros other Hother. simpl. by rewrite lookup_alter_ne.
Qed.

(** Alice's decision for [r1], delivered a second time: task [t1] is
    patched with her name, her answer and the new time. *)
Lemma repeated_delivery_resolves_nothing_witness :
  permission_decision_create (allow_for_session "r1") (Some "s1")
    "10:00:40" remembered
  = (tasks_update "t1" (approval_patch true (Some "alice") "10:00:40")
       remembered,
     Return true).
Proof.
  destruct (proj2 (proj2 repeated_delivery_resolves_nothing)
              (allow_for_session "r1") (Some "s1") "10:00:20" "10:00:40"
              asked remembered eq_refl)
    as (tid & user & a & st2 & Htid & Huser & Ha & Hrun & -> & _).
  simpl in Htid, Huser, Ha.
  injection Htid as <-. injection Huser as <-. injection Ha as <-.
  exact Hrun.
Defined.

(** C6 as stated fails at the endpoint.  The second delivery is answered
    with success and rewrites [approved_at]; delivered after the task has
    asked for the next permission, it puts the task back to [running] while
    request [r2] is still pending. *)
Lemma repeated_delivery_counterexample :
  (exists st2,
      permission_decision_create (allow_for_session "r1") (Some "s1")
        "10:00:40" remembered = (st2, Return true)
      /\ request_of remembered "t1" ≫= approved_at = Some "10:00:20"
      /\ request_of st2 "t1" ≫= approved_at = Some "10:00:40")
  /\ (exists st2,
        permission_decision_create (allow_for_session "r1") (Some "s1")
          "10:05:00" asked_again = (st2, Return true)
        /\ status_of asked_again "t1" = Some awaiting_permission
        /\ status_of st2 "t1" = Some running
        /\ is_Some (pendingRequests st2 !! "r2")).
Proof.
  split.
  - eexists. repeat (split; [reflexivity|]). reflexivity.
  - eexists. repeat (split; [reflexivity|]). by eexists.
Qed.

(** *** Further runs of the scenario *)

(** Late events: the timer after the abort, a decision after the timeout.
    The promise keeps the value it got first. *)
Example late_events_change_nothing :
  promises (timer_fire 0 (abort 0 asked)) !! 0 = Some (Some (cancelled "r1"))
  /\ promises
       (permission_decision_create (allow_for_session "r1") (Some "s1")
          "10:01:30" (timer_fire 0 asked)).1 !! 0
     = Some (Some (timed_out "r1")).
Proof. split; vm_compute; reflexivity. Qed.

(** The project of the scenario has no settings file: the continuation of
    the hook throws, after it has patched the task. *)
Example hook_throws_without_settings_file :
  let delivered :=
    (permission_decision_create (allow_for_project "r1") (Some "s1")
       "10:00:20" asked).1 in
  (fun res : State * Outcome HookJSONOutput =>
     (res.2, status_of res.1 "t1"))
    <$> createPreToolUseHook_resume call "10:00:21" delivered
  = Some (Throw "ENOENT: no such file or directory", Some running).
Proof. vm_compute. reflexivity. Qed.

(** Two calls of the hook are suspended in one session, for [Bash] and for
    [Write]; both are allowed for the session.  Each continuation writes the
    allow-list it read when its call started, plus its own tool: the second
    write loses [Bash], and the next call for [Bash] suspends again. *)
Example allow_list_lost_update :
  let both_asked :=
    (createPreToolUseHook "s1" "t1" write_file None 0 "r2" "10:00:01"
       "10:00:01" asked).1 in
  let both_delivered :=
    (permission_decision_create (allow_for_session "r2") (Some "s1")
       "10:00:31"
       (permission_decision_create (allow_for_session "r1") (Some "s1")
          "10:00:30" both_asked).1).1 in
  let st1 := resumed call "10:00:32" both_delivered in
  let st2 := resumed call2 "10:00:33" st1 in
  allowedTools <$> sessions st1 !! "s1" = Some (Some ["Bash"])
  /\ allowedTools <$> sessions st2 !! "s1" = Some (Some ["Write"])
  /\ (createPreToolUseHook "s1" "t1" bash None 0 "r3" "10:04:00" "10:04:00"
        st2).2
     = Return (inr {| frame_sessionId := "s1"; frame_taskId := "t1";
                      frame_session :=
                        {| repo_cwd := "/repo";
                           allowedTools := Some ["Write"] |};
                      frame_input := bash; frame_promise := 2 |}).
Proof. repeat split; vm_compute; reflexivity. Qed.

End PermissionSpec.
